(** * RealitioERC20Contract: event-log replay and claim-chain reconstruction

    A shallow embedding of the [RealitioERC20Contract] model class of
    bepro-js (the file that extends [IContract]) and of [IContract].

    - bytes32 values, addresses and uint256 amounts, which web3 hands to
      the code as strings, are modelled by the natural number they encode;
    - plain JavaScript objects used as dictionaries are [gmap]s;
    - JavaScript numbers are kept abstract behind the class [JSNumber],
      with the IEEE 754 binary64 instance the runtime uses and an exact
      rational instance to compare against;
    - [async] methods are computations in a small monad that threads the
      log of requests sent to the outside world and propagates rejections;
    - the methods of [RealitioERC20Contract] call [this.getContract] and
      [this.getMyAccount], which neither class defines: the calls throw a
      [TypeError], and what the methods compute from the values they would
      have read is stated on the pure parts of their bodies. *)

From Stdlib Require Import ZArith QArith Qcanon Floats.
From stdpp Require Import gmap list strings fin_maps.

Local Open Scope N_scope.

(** ** The [LogNewAnswer] event *)

(** [event.returnValues] of a [LogNewAnswer] event, restricted to the fields
    the class reads. [bond] is the raw uint256 amount of the ledger. *)
Record LogNewAnswer : Type := {
  answer : N;
  question_id : N;
  history_hash : N;
  user : N;
  bond : N
}.

(** Modelled from the spec: [Numbers.nullHash] (utils/Numbers is not among
    the sources) is the NULL_HASH sentinel, the all-zero bytes32 value. *)
Definition nullHash : N := 0.

(** ** JavaScript array operations used by the class *)

(** [Array.prototype.slice(start, end)]: negative indices count from the end
    and both bounds are clamped to the array. *)
Definition slice {A : Type} (start end_ : Z) (arr : list A) : list A :=
  let len := Z.of_nat (length arr) in
  let k := if (start <? 0)%Z then Z.max (len + start) 0 else Z.min start len in
  let final := if (end_ <? 0)%Z then Z.max (len + end_) 0 else Z.min end_ len in
  take (Z.to_nat (final - k)) (drop (Z.to_nat k) arr).

(** [arr.push(x)], as the array after the call. *)
Definition push {A : Type} (arr : list A) (x : A) : list A := arr ++ [x].

(** ** Chain reconstruction: the four arrays built by [claimWinnings] *)

(** [events.map(e => e.returnValues.history_hash).slice(0, -1).reverse()]
    followed by [historyHashes.push(Numbers.nullHash())]. *)
Definition historyHashes (events : list LogNewAnswer) : list N :=
  push (reverse (slice 0 (-1) (history_hash <$> events))) nullHash.

Definition addrs (events : list LogNewAnswer) : list N :=
  reverse (user <$> events).

Definition bonds (events : list LogNewAnswer) : list N :=
  reverse (bond <$> events).

Definition answers (events : list LogNewAnswer) : list N :=
  reverse (answer <$> events).


(** ** JavaScript numbers *)

(** The operations on JavaScript numbers the class relies on. *)
Class JSNumber (num : Type) : Type := {
  zero : num;                (* the literal [0] *)
  add : num → num → num;     (* [x + y] on two numbers *)
  div : num → num → num;     (* [x / y] *)
  ofZ : Z → num;             (* ToNumber of a decimal integer string *)
  truthy : num → bool        (* ToBoolean: what [!x] negates *)
}.

(** The laws of exact decimal arithmetic: what the accumulation needs to be
    independent of the order of the events. *)
Class ExactNumber (num : Type) `{JSNumber num} : Prop := {
  add_assoc x y z : add x (add y z) = add (add x y) z;
  add_comm x y : add x y = add y x;
  add_zero_l x : add zero x = x;
  falsy_zero x : truthy x = false → x = zero
}.

(** IEEE 754 binary64, the numbers of the JavaScript runtime. [ToNumber]
    rounds the integer to the nearest double, ties to even; [0], [-0] and
    [NaN] are the falsy numbers. *)
Definition Number_of_Z (z : Z) : float :=
  SF2Prim (binary_normalize prec emax z 0 false).

Definition float_truthy (f : float) : bool :=
  negb (PrimFloat.is_zero f || PrimFloat.is_nan f).

#[export] Instance double_JSNumber : JSNumber float := {|
  zero := 0%float;
  add := PrimFloat.add;
  div := PrimFloat.div;
  ofZ := Number_of_Z;
  truthy := float_truthy
|}.

(** Exact rationals in canonical form. *)
#[export] Instance exact_JSNumber : JSNumber Qc := {|
  zero := Q2Qc 0;
  add := Qcplus;
  div := Qcdiv;
  ofZ := λ z, Q2Qc (inject_Z z);
  truthy := λ q, negb (Qc_eq_bool q (Q2Qc 0))
|}.

(** ** The outside world and the monad of [async] methods *)

Definition error : Type := string.

Inductive outcome (A : Type) : Type :=
| Returned (a : A)
| Thrown (e : error).
Arguments Returned {A} a.
Arguments Thrown {A} e.

(** The [questions(id)] storage struct of the contract, restricted to the
    fields [getQuestion] reads. *)
Record question_storage : Type := {
  st_bond : N;
  st_best_answer : N;
  st_finalize_ts : N;
  st_history_hash : N
}.

(** [this.getContract().methods.<name>(args)]: a contract method applied to
    its arguments, not yet called nor sent. *)
Module methods.
Inductive t : Type :=
| questions (questionId : N)
| isFinalized (questionId : N)
| claimWinnings (questionId : N) (historyHashes addrs bonds answers : list N).
End methods.

(** [filter] option of [getPastEvents]; an [undefined] entry does not
    constrain the query. *)
Record event_filter : Type := {
  filter_question_id : option N;
  filter_user : option N
}.

(** Requests that leave the process, in the order they are issued. *)
Inductive request : Type :=
| call (f : methods.t) (from : option N)
| getPastEvents (event : string) (fromBlock : N) (toBlock : string)
    (filter : event_filter)
| getAccounts
| console_log (msg : string)
| metamaskSend (f : methods.t) (from : option N)
| contractSend (account : N) (f : methods.t).

(** What the ledger and the node answer. [ledger_events] is the
    whole [LogNewAnswer] log in ledger order. Every answer may be a
    rejection, which the awaiting method rethrows. *)
Record World : Type := {
  this_acc : option N;
  ledger_questions : N → outcome question_storage;
  ledger_isFinalized : N → outcome bool;
  ledger_events : outcome (list LogNewAnswer);
  node_accounts : outcome (list N);
  send_result : methods.t → outcome N;
  call_result : methods.t → outcome N
}.

Definition M (A : Type) : Type :=
  World → list request → outcome A * list request.

#[export] Instance M_ret : MRet M := λ A a _ log, (Returned a, log).

#[export] Instance M_bind : MBind M := λ A B k m w log,
  match m w log with
  | (Returned a, log') => k a w log'
  | (Thrown e, log') => (Thrown e, log')
  end.

(** Issue a request and await the world's answer. *)
Definition await {A : Type} (r : request) (answer_of : World → outcome A) : M A :=
  λ w log, (answer_of w, log ++ [r]).

Definition tell (r : request) : M unit :=
  λ _ log, (Returned (), log ++ [r]).

Definition this_acc_ : M (option N) := λ w log, (Returned (this_acc w), log).

Definition throw {A : Type} (e : error) : M A := λ _ log, (Thrown e, log).

Definition run {A : Type} (w : World) (m : M A) : outcome A * list request :=
  m w [].

(** The events a [getPastEvents('LogNewAnswer', {filter})] query selects. *)
Definition matches (flt : event_filter) (e : LogNewAnswer) : bool :=
  match filter_question_id flt with
  | Some q => bool_decide (question_id e = q)
  | None => true
  end
  && match filter_user flt with
     | Some u => bool_decide (user e = u)
     | None => true
     end.

Definition getPastEvents_LogNewAnswer (flt : event_filter) : M (list LogNewAnswer) :=
  await (getPastEvents "LogNewAnswer" 0 "latest" flt)
    (λ w, match ledger_events w with
          | Returned evs => Returned (List.filter (matches flt) evs)
          | Thrown e => Thrown e
          end).

(** ** [IContract.__sendTx] *)

Definition __sendTx (f : methods.t) (call_ : bool) : M N :=
  acc ← this_acc_;
  match acc, call_ with
  | None, false =>
      accounts ← await getAccounts node_accounts;
      _ ← tell (console_log "---__sendTx.bp0");
      await (metamaskSend f (head accounts)) (λ w, send_result w f)
  | Some a, false => await (contractSend a f) (λ w, send_result w f)
  | Some a, true => await (call f (Some a)) (λ w, call_result w f)
  | None, true => await (call f None) (λ w, call_result w f)
  end.

(** ** Members the class calls and no class defines *)

(** [this.getContract()]. Neither [RealitioERC20Contract] nor the
    [IContract] it extends has a member [getContract] ([IContract] names its
    accessor [getWeb3Contract], and its own methods go through
    [this.params.contract.getContract()]), so [this.getContract] is
    [undefined] and calling it throws a [TypeError], before anything is
    asked of the ledger. *)
Definition this_getContract : M unit :=
  throw "TypeError: this.getContract is not a function".

(** [this.getMyAccount()], likewise: [IContract] has [getUserAddress]
    only. *)
Definition this_getMyAccount : M (option N) :=
  throw "TypeError: this.getMyAccount is not a function".

(** ** The class [RealitioERC20Contract] *)

Section RealitioERC20Contract.
Context {num : Type} {JS : JSNumber num}.

(** Modelled from the spec: [Numbers.fromDecimalsNumber] (utils/Numbers is
    not among the sources) converts a ledger-native fixed-point amount to
    a decimal number by scaling with [10 ** decimals]. *)
Definition fromDecimalsNumber (value : N) (decimals : N) : num :=
  div (ofZ (Z.of_N value)) (ofZ (10 ^ Z.of_N decimals)).

(** The object [getQuestion] returns. *)
Record Question : Type := {
  id : N;
  q_bond : num;
  bestAnswer : N;
  finalizeTs : N;
  isFinalized : bool;
  isClaimed : bool
}.

(** The object [getQuestion] builds from the two values it awaits. *)
Definition getQuestion_object (questionId : N) (question : question_storage)
    (isFinalized : bool) : Question :=
  let isClaimed := isFinalized && bool_decide (st_history_hash question = nullHash) in
  {| id := questionId;
     q_bond := fromDecimalsNumber (st_bond question) 18;
     bestAnswer := st_best_answer question;
     finalizeTs := st_finalize_ts question;
     isFinalized := isFinalized;
     isClaimed := isClaimed |}.

Definition getQuestion (questionId : N) : M Question :=
  question ← (_ ← this_getContract;
              await (call (methods.questions questionId) None)
                    (λ w, ledger_questions w questionId));
  isFinalized ← (_ ← this_getContract;
                 await (call (methods.isFinalized questionId) None)
                       (λ w, ledger_isFinalized w questionId));
  mret (getQuestion_object questionId question isFinalized).

(** The value [obj[key]] holds once the guard
    [if (!obj[key]) obj[key] = 0] has run: the stored number when it is
    truthy, [0] when the key is missing or its number is falsy. *)
Definition or_zero (v : option num) : num :=
  match v with
  | Some x => if truthy x then x else zero
  | None => zero
  end.

(** Body of the [answers.forEach] of [getQuestionBondsByAnswer]. *)
Definition bondsByAnswer_step (bonds : gmap N num) (answer_ : LogNewAnswer)
  : gmap N num :=
  let answerId := answer answer_ in
  <[answerId := add (or_zero (bonds !! answerId))
                    (fromDecimalsNumber (bond answer_) 18)]> bonds.

Definition bondsByAnswer (answers : list LogNewAnswer) : gmap N num :=
  fold_left bondsByAnswer_step answers ∅.

Definition getQuestionBondsByAnswer (questionId : N) (user : option N)
  : M (gmap N num) :=
  answers ← (_ ← this_getContract;
             getPastEvents_LogNewAnswer
               {| filter_question_id := Some questionId; filter_user := user |});
  mret (bondsByAnswer answers).

(** An entry [{ total, answers }] of the object [getMyBonds] returns. *)
Record QuestionBonds : Type := {
  total : num;
  by_answer : gmap N num
}.

(** Body of the [events.forEach] of [getMyBonds]. *)
Definition myBonds_step (bonds : gmap N QuestionBonds) (event : LogNewAnswer)
  : gmap N QuestionBonds :=
  let questionId := question_id event in
  let entry := default {| total := zero; by_answer := ∅ |} (bonds !! questionId) in
  let cur := or_zero (by_answer entry !! answer event) in
  let bond := fromDecimalsNumber (bond event) 18 in
  <[questionId := {| total := add (total entry) bond;
                     by_answer := <[answer event := add cur bond]> (by_answer entry) |}]>
    bonds.

Definition myBonds (events : list LogNewAnswer) : gmap N QuestionBonds :=
  fold_left myBonds_step events ∅.

(** [getMyBonds] from the account on. *)
Definition getMyBonds_with (account : option N) : M (gmap N QuestionBonds) :=
  match account with
  | None => mret ∅
  | Some account =>
      events ← (_ ← this_getContract;
                getPastEvents_LogNewAnswer
                  {| filter_question_id := None; filter_user := Some account |});
      mret (myBonds events)
  end.

Definition getMyBonds : M (gmap N QuestionBonds) :=
  account ← this_getMyAccount;
  getMyBonds_with account.

(** [claimWinnings] resolves to [false] or to what [__sendTx] resolves to. *)
Inductive claim_result : Type :=
| JSfalse
| Sent (res : N).

(** The method call [claimWinnings] builds from the events. *)
Definition claimWinnings_call (questionId : N) (events : list LogNewAnswer)
  : methods.t :=
  methods.claimWinnings questionId
    (historyHashes events) (addrs events) (bonds events) (answers events).

(** [claimWinnings] from the resolved question on. *)
Definition claimWinnings_with (questionId : N) (question : Question)
  : M claim_result :=
  if isClaimed question || negb (isFinalized question) then mret JSfalse
  else
    events ← (_ ← this_getContract;
              getPastEvents_LogNewAnswer
                {| filter_question_id := Some questionId; filter_user := None |});
    f ← (_ ← this_getContract; mret (claimWinnings_call questionId events));
    res ← __sendTx f false;
    mret (Sent res).

Definition claimWinnings (questionId : N) : M claim_result :=
  question ← getQuestion questionId;
  claimWinnings_with questionId question.

(** *** Views of the accumulation, used to state its properties *)

(** Sum of the per-answer amounts of one entry. *)
Definition sum_by_answer (m : gmap N num) : num :=
  map_fold (λ _ x acc, add x acc) zero m.

(** One round of the guard and [+=] on a single key: [o] is what the
    key holds before ([None] when it is missing). *)
Definition accumulate (o : option num) (x : num) : option num :=
  Some (add (or_zero o) x).

(** The decimal amount an aggregation adds for an event. *)
Definition decimal_bond (e : LogNewAnswer) : num :=
  fromDecimalsNumber (bond e) 18.

(** What one event does to the entry of its question in [getMyBonds]. *)
Definition entry_step (entry : QuestionBonds) (e : LogNewAnswer) : QuestionBonds :=
  {| total := add (total entry) (decimal_bond e);
     by_answer := bondsByAnswer_step (by_answer entry) e |}.

Definition empty_entry : QuestionBonds := {| total := zero; by_answer := ∅ |}.
End RealitioERC20Contract.

Arguments Question num : clear implicits.
Arguments QuestionBonds num : clear implicits.

(** ** Sample inputs *)

(** The three events of the end-to-end example, in ledger order, with the
    raw bond amounts left open. *)
Definition example_events (Q1 A B h1 h2 h3 : N) (b1 b2 b3 : N) : list LogNewAnswer :=
  [ {| answer := 1; question_id := Q1; history_hash := h1; user := A; bond := b1 |};
    {| answer := 2; question_id := Q1; history_hash := h2; user := B; bond := b2 |};
    {| answer := 1; question_id := Q1; history_hash := h3; user := A; bond := b3 |} ].

(** [n] whole tokens as a raw 18-decimal amount. *)
Definition tokens (n : N) : N := n * 10 ^ 18.

(** [n] tenths of a token as a raw 18-decimal amount. *)
Definition tenths (n : N) : N := n * 10 ^ 17.

(** Three bonds of 0.1, 0.3 and 1 token on one answer of question 7, each
    at least twice the one before, and the same events in the opposite
    order. *)
Definition rising_events : list LogNewAnswer :=
  [ {| answer := 1; question_id := 7; history_hash := 101; user := 10; bond := tenths 1 |};
    {| answer := 1; question_id := 7; history_hash := 102; user := 10; bond := tenths 3 |};
    {| answer := 1; question_id := 7; history_hash := 103; user := 10; bond := tenths 10 |} ].

Definition falling_events : list LogNewAnswer :=
  [ {| answer := 1; question_id := 7; history_hash := 103; user := 10; bond := tenths 10 |};
    {| answer := 1; question_id := 7; history_hash := 102; user := 10; bond := tenths 3 |};
    {| answer := 1; question_id := 7; history_hash := 101; user := 10; bond := tenths 1 |} ].

(** The same three bonds by one user, the middle one backing another
    answer. *)
Definition split_events : list LogNewAnswer :=
  [ {| answer := 1; question_id := 7; history_hash := 101; user := 10; bond := tenths 1 |};
    {| answer := 2; question_id := 7; history_hash := 102; user := 10; bond := tenths 3 |};
    {| answer := 1; question_id := 7; history_hash := 103; user := 10; bond := tenths 10 |} ].

(** A world in which every request succeeds. *)
Definition sample_world (acc : option N) (st : question_storage) (fin : bool)
    (evs : list LogNewAnswer) (account : option N) : World :=
  {| this_acc := acc;
     ledger_questions := λ _, Returned st;
     ledger_isFinalized := λ _, Returned fin;
     ledger_events := Returned evs;
     node_accounts := Returned (option_list account);
     send_result := λ _, Returned 1;
     call_result := λ _, Returned 0 |}.

Definition sample_storage (hash : N) : question_storage :=
  {| st_bond := tokens 3; st_best_answer := 1; st_finalize_ts := 1700000000;
     st_history_hash := hash |}.

(** The example with question 7, users 10 and 11, and bonds of 10, 5 and 3
    tokens. *)
Definition sample_events : list LogNewAnswer :=
  example_events 7 10 11 101 102 103 (tokens 10) (tokens 5) (tokens 3).

(** Question 7 finalized and open to a claim by account 10. *)
Definition open_world : World :=
  sample_world (Some 10) (sample_storage 103) true sample_events (Some 10).

(** Answers to two questions, and the same events with the first two
    exchanged: every answer and every question keeps its events in order. *)
Definition mixed_events : list LogNewAnswer :=
  [ {| answer := 1; question_id := 7; history_hash := 101; user := 10; bond := tenths 1 |};
    {| answer := 2; question_id := 8; history_hash := 201; user := 10; bond := tenths 3 |};
    {| answer := 1; question_id := 7; history_hash := 102; user := 10; bond := tenths 10 |} ].

Definition mixed_events_exchanged : list LogNewAnswer :=
  [ {| answer := 2; question_id := 8; history_hash := 201; user := 10; bond := tenths 3 |};
    {| answer := 1; question_id := 7; history_hash := 101; user := 10; bond := tenths 1 |};
    {| answer := 1; question_id := 7; history_hash := 102; user := 10; bond := tenths 10 |} ].

(** The entry of question 7 after [split_events], in binary64: a total of
    1.4 and the amounts 1.1 and 0.3. *)
Definition split_entry : QuestionBonds float :=
  {| total := 0x1.6666666666666p+0%float;
     by_answer := {[ 1 := 0x1.199999999999ap+0%float;
                     2 := 0x1.3333333333333p-2%float ]} |}.

(** ** Further code of [IContract] *)

(** [getUserAddress]: the address of the account when there is one, the
    first account of the node otherwise ([undefined] when it has none). *)
Definition getUserAddress : M (option N) :=
  acc ← this_acc_;
  match acc with
  | Some a => mret (Some a)
  | None =>
      accounts ← await getAccounts node_accounts;
      mret (head accounts)
  end.

(** What a request sends, whom it sends it from, and what it calls. *)
Definition sent_tx (r : request) : option methods.t :=
  match r with
  | metamaskSend f _ => Some f
  | contractSend _ f => Some f
  | _ => None
  end.

Definition sender (r : request) : option (option N) :=
  match r with
  | metamaskSend _ from => Some from
  | contractSend account _ => Some (Some account)
  | _ => None
  end.

Definition called (r : request) : option methods.t :=
  match r with
  | call f _ => Some f
  | _ => None
  end.

(** *** [__metamaskCall] *)

(** What the [send] of a transaction emits over time. *)
Inductive emission : Type :=
| confirmation (confirmationNumber : N) (receipt : N)
| emitted_error (err : error).

(** The promise [__metamaskCall] returns; once it is resolved or rejected,
    later calls of [resolve] and [reject] have no effect. *)
Inductive promise : Type :=
| pending
| resolved (receipt : N)
| rejected (err : error).

Definition settle (p outcome_ : promise) : promise :=
  match p with
  | pending => outcome_
  | _ => p
  end.

(** The promise, and the arguments [callback] has been called with. *)
Record metamask_state : Type := {
  promised : promise;
  callback_calls : list N
}.

(** The two handlers: [.on('confirmation', …)] and [.on('error', …)], for
    a [callback] that returns. *)
Definition on_emission (s : metamask_state) (em : emission) : metamask_state :=
  match em with
  | confirmation confirmationNumber receipt =>
      {| promised := if 0 <? confirmationNumber
                     then settle (promised s) (resolved receipt)
                     else promised s;
         callback_calls := callback_calls s ++ [confirmationNumber] |}
  | emitted_error err =>
      {| promised := settle (promised s) (rejected err);
         callback_calls := callback_calls s |}
  end.

Definition __metamaskCall (emissions : list emission) : metamask_state :=
  fold_left on_emission emissions {| promised := pending; callback_calls := [] |}.

(** The first emission that settles the promise. *)
Definition settles (em : emission) : bool :=
  match em with
  | confirmation confirmationNumber _ => 0 <? confirmationNumber
  | emitted_error _ => true
  end.

Definition settlement (em : emission) : promise :=
  match em with
  | confirmation _ receipt => resolved receipt
  | emitted_error err => rejected err
  end.

Definition confirmation_number (em : emission) : option N :=
  match em with
  | confirmation confirmationNumber _ => Some confirmationNumber
  | emitted_error _ => None
  end.

(** *** Construction, deployment and the guards *)

Module IContract.

Definition ABI : Type := string.
Definition Web3 : Type := N.

(** The object handed to the constructor; [None] is a property that is
    missing or falsy. *)
Record constructor_params : Type := {
  p_web3 : option Web3;
  p_contractAddress : option N;
  p_abi : option ABI;
  p_acc : option N;
  p_tokenAddress : option N
}.

(** The fields of an instance: [this.web3], [this.acc] and [this.params];
    [params.contract], the [Contract] wrapper built from the other fields,
    is left to the requests that go through it. *)
Record t : Type := {
  web3 : Web3;
  acc : option N;
  abi : ABI;
  contractAddress : option N;
  tokenAddress : option N
}.

Definition constructor (p : constructor_params) : outcome t :=
  match p_abi p with
  | None => Thrown "No ABI Interface provided"
  | Some abi_ =>
      match p_web3 p with
      | None => Thrown "Please provide a valid web3 provider"
      | Some web3_ =>
          Returned {| web3 := web3_; acc := p_acc p; abi := abi_;
                      contractAddress := p_contractAddress p;
                      tokenAddress := p_tokenAddress p |}
      end
  end.

(** The ABI of the [interfaces] module. *)
Definition realitio : ABI := "realitio".

(** The [params] of [new RealitioERC20Contract(params)]. For [abi] the
    outer [option] tells whether [params] has the property at all, since
    [{abi: realitio, ...params}] lets any own property of [params] win. *)
Record realitio_params : Type := {
  r_web3 : option Web3;
  r_contractAddress : option N;
  r_abi : option (option ABI);
  r_acc : option N;
  r_tokenAddress : option N
}.

Definition RealitioERC20Contract_constructor (params : realitio_params) : outcome t :=
  constructor {| p_web3 := r_web3 params;
                 p_contractAddress := r_contractAddress params;
                 p_abi := default (Some realitio) (r_abi params);
                 p_acc := r_acc params;
                 p_tokenAddress := r_tokenAddress params |}.

(** What [contract.deploy] resolves to. *)
Record deploy_receipt : Type := {
  receipt_contractAddress : option N;
  receipt_transactionHash : N
}.

Inductive xrequest : Type :=
| base (r : request)
| owner_call
| paused_call
| contract_deploy (account : option N) (abi_ : ABI) (args : list N)
| contract_use (abi_ : ABI) (address : N).

Record XWorld : Type := {
  ledger : World;
  owner_result : outcome N;
  paused_result : outcome bool;
  deploy_result : outcome deploy_receipt
}.

(** Methods that read or assign the fields of [this]; the fields keep what
    was assigned even when the method throws afterwards. *)
Definition IM (A : Type) : Type :=
  t → XWorld → list xrequest → outcome A * t * list xrequest.

#[export] Instance IM_ret : MRet IM := λ A a this _ log, (Returned a, this, log).

#[export] Instance IM_bind : MBind IM := λ A B k m this w log,
  match m this w log with
  | (Returned a, this', log') => k a this' w log'
  | (Thrown e, this', log') => (Thrown e, this', log')
  end.

Definition throw {A : Type} (e : error) : IM A := λ this _ log, (Thrown e, this, log).

Definition xawait {A : Type} (r : xrequest) (answer_of : XWorld → outcome A) : IM A :=
  λ this w log, (answer_of w, this, log ++ [r]).

Definition xtell (r : xrequest) : IM unit :=
  λ this _ log, (Returned (), this, log ++ [r]).

Definition get_this : IM t := λ this _ log, (Returned this, this, log).

Definition set_contractAddress (a : option N) : IM unit :=
  λ this _ log,
    (Returned (),
     {| web3 := web3 this; acc := acc this; abi := abi this;
        contractAddress := a; tokenAddress := tokenAddress this |},
     log).

(** The world a method of the earlier sections sees from this instance. *)
Definition world_of (this : t) (w : XWorld) : World :=
  {| this_acc := acc this;
     ledger_questions := ledger_questions (ledger w);
     ledger_isFinalized := ledger_isFinalized (ledger w);
     ledger_events := ledger_events (ledger w);
     node_accounts := node_accounts (ledger w);
     send_result := send_result (ledger w);
     call_result := call_result (ledger w) |}.

Definition lift {A : Type} (m : M A) : IM A :=
  λ this w log,
    let '(r, l) := m (world_of this w) [] in
    (r, this, log ++ (base <$> l)).

Definition xrun {A : Type} (this : t) (w : XWorld) (m : IM A)
  : outcome A * t * list xrequest :=
  m this w [].

Definition getAddress : IM (option N) :=
  this ← get_this; mret (contractAddress this).

Definition __assert : IM unit :=
  address ← getAddress;
  match address with
  | None =>
      throw "Contract is not deployed, first deploy it and provide a contract address"
  | Some a =>
      this ← get_this;
      xtell (contract_use (abi this) a)
  end.

Definition __init__ : IM unit :=
  address ← getAddress;
  match address with
  | None => throw "Please add a Contract Address"
  | Some _ => __assert
  end.

Definition __deploy (params : list N) : IM deploy_receipt :=
  this ← get_this;
  xawait (contract_deploy (acc this) (abi this) params) deploy_result.

Definition deploy : IM deploy_receipt :=
  let params := [] in
  res ← __deploy params;
  _ ← set_contractAddress (receipt_contractAddress res);
  _ ← __assert;
  mret res.

Definition owner : IM N := xawait owner_call owner_result.

Definition isPaused : IM bool := xawait paused_call paused_result.

(** [adminAddress === userAddress] compares the two addresses as web3
    returns them; [undefined] equals no address. *)
Definition onlyOwner : IM unit :=
  adminAddress ← owner;
  userAddress ← lift getUserAddress;
  let isAdmin := bool_decide (userAddress = Some adminAddress) in
  if negb isAdmin then throw "Only admin can perform this operation"
  else mret ().

Definition whenNotPaused : IM unit :=
  paused ← isPaused;
  if paused : bool then throw "Contract is paused" else mret ().

End IContract.

(** *** Sample instances *)

Definition sample_instance (address : option N) (account : option N) : IContract.t :=
  {| IContract.web3 := 1; IContract.acc := account;
     IContract.abi := IContract.realitio;
     IContract.contractAddress := address; IContract.tokenAddress := None |}.

Definition sample_xworld (owner_ : N) (paused : bool) (deployed : option N)
  : IContract.XWorld :=
  {| IContract.ledger := open_world;
     IContract.owner_result := Returned owner_;
     IContract.paused_result := Returned paused;
     IContract.deploy_result :=
       Returned {| IContract.receipt_contractAddress := deployed;
                   IContract.receipt_transactionHash := 77 |} |}.

(** ** Array lemmas *)

Lemma slice_0_m1 {A : Type} (arr : list A) :
  slice 0 (-1) arr = take (length arr - 1) arr.
Proof.
  unfold slice. cbn [Z.ltb Z.compare].
  rewrite Z.min_l by lia. cbn [Z.to_nat drop].
  f_equal. lia.
Qed.

Lemma length_slice_0_m1 {A : Type} (arr : list A) :
  length (slice 0 (-1) arr) = (length arr - 1)%nat.
Proof. rewrite slice_0_m1, length_take. lia. Qed.

Lemma length_historyHashes events :
  length (historyHashes events) = S (length events - 1).
Proof.
  unfold historyHashes, push.
  rewrite length_app, length_reverse, length_slice_0_m1, length_fmap.
  cbn. lia.
Qed.

Lemma last_historyHashes events : last (historyHashes events) = Some nullHash.
Proof. unfold historyHashes, push. apply last_snoc. Qed.

Lemma historyHashes_take events :
  historyHashes events
  = reverse (history_hash <$> take (length events - 1) events) ++ [nullHash].
Proof.
  unfold historyHashes, push.
  by rewrite slice_0_m1, length_fmap, fmap_take.
Qed.

Lemma lookup_reverse_fmap {A B : Type} (f : A → B) (l : list A) (i : nat) :
  (i < length l)%nat →
  reverse (f <$> l) !! i = f <$> l !! (length l - S i)%nat.
Proof.
  intros Hi.
  rewrite reverse_lookup by (rewrite length_fmap; lia).
  by rewrite length_fmap, list_lookup_fmap.
Qed.

(** ** Running the methods *)

Ltac unfold_methods :=
  unfold run, claimWinnings, claimWinnings_with, getQuestion,
    getQuestionBondsByAnswer, getMyBonds, getMyBonds_with,
    this_getContract, this_getMyAccount, throw,
    getUserAddress, __sendTx, getPastEvents_LogNewAnswer,
    mbind, M_bind, await, tell, this_acc_, mret, M_ret.

(** ** Chain reconstruction *)

(** C1. For events [e_0 … e_{n-1}] in ledger order with [n ≥ 1], the
    history hashes handed to the claim are the hashes of [e_0 … e_{n-2}]
    reversed, followed by one [nullHash]: position [i < n-1] holds the hash
    of [e_{n-2-i}], position [n-1] holds the sentinel, and the length is
    [n]. *)
Theorem historyHashes_spec (events : list LogNewAnswer) :
  (1 ≤ length events)%nat →
  historyHashes events
  = reverse (history_hash <$> take (length events - 1) events) ++ [nullHash]
  ∧ length (historyHashes events) = length events
  ∧ (∀ i, (i < length events - 1)%nat →
       historyHashes events !! i
       = history_hash <$> events !! (length events - 2 - i)%nat)
  ∧ historyHashes events !! (length events - 1)%nat = Some nullHash.
Proof.
  intros Hn. split; [apply historyHashes_take|].
  split; [rewrite length_historyHashes; lia|].
  rewrite historyHashes_take. split.
  - intros i Hi.
    assert (Hlen : length (take (length events - 1) events) = (length events - 1)%nat)
      by (rewrite length_take; lia).
    rewrite lookup_app_l by (rewrite length_reverse, length_fmap; lia).
    rewrite lookup_reverse_fmap by lia.
    rewrite Hlen, lookup_take_lt by lia.
    do 2 f_equal. lia.
  - rewrite lookup_app_r; rewrite length_reverse, length_fmap, length_take.
    + replace (_ - _)%nat with 0%nat by lia. done.
    + lia.
Qed.

Lemma historyHashes_spec_witness :
  (1 ≤ length sample_events)%nat
  ∧ historyHashes sample_events !! 0%nat = Some 102
  ∧ length (historyHashes sample_events) = 3%nat.
Proof.
  assert (Hn : (1 ≤ length sample_events)%nat) by (cbn; lia).
  split; [exact Hn|].
  destruct (historyHashes_spec sample_events Hn) as (_ & Hlen & Hi & _).
  split; [|exact Hlen].
  rewrite Hi; [reflexivity | cbn; lia].
Defined.

(** C2. For a non-empty event sequence, the address, bond and answer arrays
    are the whole event sequence reversed: each has length [n], position [i]
    comes from event [e_{n-1-i}], so the first element comes from the most
    recent event and the last from the oldest. *)
Theorem addrs_bonds_answers_spec (events : list LogNewAnswer) :
  events ≠ [] →
  let n := length events in
  (length (addrs events) = n ∧ length (bonds events) = n
   ∧ length (answers events) = n)
  ∧ (∀ i, (i < n)%nat →
       addrs events !! i = user <$> events !! (n - S i)%nat
       ∧ bonds events !! i = bond <$> events !! (n - S i)%nat
       ∧ answers events !! i = answer <$> events !! (n - S i)%nat)
  ∧ (head (addrs events) = user <$> last events
     ∧ head (bonds events) = bond <$> last events
     ∧ head (answers events) = answer <$> last events)
  ∧ (last (addrs events) = user <$> head events
     ∧ last (bonds events) = bond <$> head events
     ∧ last (answers events) = answer <$> head events).
Proof.
  intros Hne n. unfold addrs, bonds, answers.
  rewrite !length_reverse, !length_fmap.
  split; [done|]. split.
  - intros i Hi. by rewrite !lookup_reverse_fmap.
  - rewrite !head_reverse, !last_reverse, !fmap_last.
    by destruct events.
Qed.

Lemma addrs_bonds_answers_spec_witness :
  sample_events ≠ []
  ∧ head (addrs sample_events) = user <$> last sample_events
  ∧ last (bonds sample_events) = bond <$> head sample_events.
Proof.
  assert (Hne : sample_events ≠ []) by discriminate.
  split; [exact Hne|].
  destruct (addrs_bonds_answers_spec sample_events Hne)
    as (_ & _ & (Hh & _) & (_ & Hl & _)).
  split; [exact Hh | exact Hl].
Defined.

(** C3, as stated, fails on the empty event sequence: the hash array is not
    empty, it holds the sentinel. *)
Lemma chain_of_no_events_not_empty :
  ¬ (length (historyHashes []) = 0%nat ∧ length (addrs []) = 0%nat
     ∧ length (bonds []) = 0%nat ∧ length (answers []) = 0%nat).
Proof. intros [Hh _]. discriminate Hh. Qed.

(** C3, amended. For [n] events the address, bond and answer arrays have
    length [n] and the hash array has length [max n 1], its last element
    being [nullHash]; so the four lengths agree exactly when [n ≥ 1], and no
    events give hashes [[nullHash]] and three empty arrays. *)
Theorem chain_lengths (events : list LogNewAnswer) :
  let n := length events in
  length (historyHashes events) = Nat.max n 1
  ∧ length (addrs events) = n
  ∧ length (bonds events) = n
  ∧ length (answers events) = n
  ∧ last (historyHashes events) = Some nullHash
  ∧ (historyHashes [] = [nullHash] ∧ addrs [] = [] ∧ bonds [] = []
     ∧ answers [] = []).
Proof.
  intros n. rewrite length_historyHashes, last_historyHashes.
  unfold addrs, bonds, answers. rewrite !length_reverse, !length_fmap.
  repeat split. lia.
Qed.

(** ** The derived [isClaimed] flag, the claim gate and the missing members *)

Section Gate.
Context {num : Type} {JS : JSNumber num}.

(** C8. The question object [getQuestion] builds from the struct and the
    finalization flag carries that flag as [isFinalized], and its
    [isClaimed] is true exactly when the flag is true and the history hash
    of the struct is [nullHash]; [isClaimed] depends on these two values
    alone: it is the same when the id and every other field of the struct
    are blanked. *)
Theorem getQuestion_isClaimed (questionId : N) (question : question_storage)
    (isFinalized_ : bool) :
  isFinalized (getQuestion_object (num := num) questionId question isFinalized_)
  = isFinalized_
  ∧ (isClaimed (getQuestion_object (num := num) questionId question isFinalized_) = true
     ↔ isFinalized_ = true ∧ st_history_hash question = nullHash)
  ∧ isClaimed (getQuestion_object (num := num) questionId question isFinalized_)
    = isClaimed (getQuestion_object (num := num) 0
                   {| st_bond := 0; st_best_answer := 0; st_finalize_ts := 0;
                      st_history_hash := st_history_hash question |}
                   isFinalized_).
Proof.
  split; [done|]. split; [|done]. cbn [isClaimed getQuestion_object].
  by rewrite andb_true_iff, bool_decide_eq_true.
Qed.

(** The gate of [claimWinnings], taken from the resolved question on:
    claimed or not finalized gives [false], with no request. *)
Lemma claimWinnings_with_gate w questionId (question : Question num) :
  isClaimed question = true ∨ isFinalized question = false →
  run w (claimWinnings_with questionId question) = (Returned JSfalse, []).
Proof.
  intros Hgate. unfold run, claimWinnings_with.
  destruct Hgate as [-> | ->]; [done|]. by rewrite orb_true_r.
Qed.

(** [getMyBonds], taken from the account on: no account gives the empty
    object, with no request. *)
Lemma getMyBonds_with_no_account w :
  run w (getMyBonds_with (num := num) None) = (Returned ∅, []).
Proof. done. Qed.

(** C7 fails on the code. Whatever the ledger holds for the question,
    claimed, not finalized or open, [claimWinnings] rejects with the
    [TypeError] of [this.getContract()], raised in [getQuestion] before
    any request; it never returns [false]. *)
Theorem claimWinnings_rejects (w : World) (questionId : N) :
  run w (claimWinnings (num := num) questionId)
  = (Thrown "TypeError: this.getContract is not a function", []).
Proof. done. Qed.

(** C9 fails on the code. With or without an account, [getMyBonds]
    rejects with the [TypeError] of [this.getMyAccount()] before any
    request; it never returns the empty object. *)
Theorem getMyBonds_rejects (w : World) :
  run w (getMyBonds (num := num))
  = (Thrown "TypeError: this.getMyAccount is not a function", []).
Proof. done. Qed.
End Gate.

(** ** Aggregation, for any kind of number *)

Section Aggregation.
Context {num : Type} {JS : JSNumber num}.

Lemma fold_left_comm_perm {A B : Type} (f : A → B → A) (l l' : list B) :
  (∀ a x y, f (f a x) y = f (f a y) x) →
  l ≡ₚ l' → ∀ a, fold_left f l a = fold_left f l' a.
Proof.
  intros Hf. induction 1 as [|x l l' _ IH|x y l|l l' l'' _ IH1 _ IH2]; intros a; cbn.
  - done.
  - apply IH.
  - by rewrite Hf.
  - by rewrite IH1, IH2.
Qed.

(** Each key is accumulated from the decimal bonds of its own events, in
    the order of the events. *)
Lemma bondsByAnswer_fold_lookup events (m : gmap N num) (k : N) :
  fold_left bondsByAnswer_step events m !! k
  = fold_left accumulate (decimal_bond <$> filter (λ e, answer e = k) events) (m !! k).
Proof.
  revert m. induction events as [|e events IH]; intros m; [done|].
  cbn [fold_left]. rewrite IH. unfold bondsByAnswer_step.
  rewrite filter_cons. case_decide as Hk.
  - subst k. by rewrite lookup_insert_eq.
  - by rewrite lookup_insert_ne.
Qed.

Lemma bondsByAnswer_lookup events (k : N) :
  bondsByAnswer events !! k
  = fold_left accumulate (decimal_bond <$> filter (λ e, answer e = k) events) None.
Proof. unfold bondsByAnswer. by rewrite bondsByAnswer_fold_lookup, lookup_empty. Qed.

Lemma fold_accumulate_is_Some (xs : list num) (o : option num) :
  is_Some (fold_left accumulate xs o) ↔ is_Some o ∨ xs ≠ [].
Proof.
  revert o. induction xs as [|x xs IH]; intros o; cbn.
  - split; [by left|by intros [?|?]].
  - rewrite IH. unfold accumulate. split; [by right|eauto].
Qed.

(** The keys of the result are the answers that occur among the events. *)
Lemma elem_of_dom_bondsByAnswer events (k : N) :
  k ∈ dom (bondsByAnswer events) ↔ k ∈ answer <$> events.
Proof.
  rewrite elem_of_dom, bondsByAnswer_lookup, fold_accumulate_is_Some.
  rewrite list_elem_of_fmap. split.
  - intros [[? [=]]|Hne].
    destruct (filter _ events) as [|e l] eqn:Hf; [done|].
    assert (He : e ∈ filter (λ e, answer e = k) events) by (rewrite Hf; left).
    apply list_elem_of_filter in He as [? ?]. eauto.
  - intros (e & -> & He). right.
    assert (Hin : e ∈ filter (λ e', answer e' = answer e) events)
      by by apply list_elem_of_filter.
    intros Hnil. destruct (filter _ events); [by apply not_elem_of_nil in Hin|done].
Qed.

Lemma myBonds_step_entry (m : gmap N (QuestionBonds num)) e :
  myBonds_step m e
  = <[question_id e := entry_step (default empty_entry (m !! question_id e)) e]> m.
Proof. done. Qed.

Lemma myBonds_fold_lookup events (m : gmap N (QuestionBonds num)) (q : N) :
  fold_left myBonds_step events m !! q
  = fold_left (λ o e, Some (entry_step (default empty_entry o) e))
      (filter (λ e, question_id e = q) events) (m !! q).
Proof.
  revert m. induction events as [|e events IH]; intros m; [done|].
  cbn [fold_left]. rewrite IH, myBonds_step_entry.
  rewrite filter_cons. case_decide as Hq.
  - subst q. by rewrite lookup_insert_eq.
  - by rewrite lookup_insert_ne.
Qed.

Lemma fold_entry_step events (entry : QuestionBonds num) :
  fold_left entry_step events entry
  = {| total := fold_left add (decimal_bond <$> events) (total entry);
       by_answer := fold_left bondsByAnswer_step events (by_answer entry) |}.
Proof.
  revert entry. induction events as [|e events IH]; intros entry.
  - by destruct entry.
  - cbn [fold_left fmap list_fmap]. by rewrite IH.
Qed.

Lemma fold_Some_entry_step events (o : option (QuestionBonds num)) :
  fold_left (λ o e, Some (entry_step (default empty_entry o) e)) events o
  = match events with
    | [] => o
    | _ => Some (fold_left entry_step events (default empty_entry o))
    end.
Proof.
  revert o. induction events as [|e events IH]; intros o; [done|].
  cbn [fold_left]. rewrite IH. by destruct events.
Qed.

(** The entry of a question holds the running total of the decimal bonds
    of its events and their aggregation by answer. *)
Lemma myBonds_lookup events (q : N) :
  myBonds events !! q
  = match filter (λ e, question_id e = q) events with
    | [] => None
    | evs => Some {| total := fold_left add (decimal_bond <$> evs) zero;
                     by_answer := bondsByAnswer evs |}
    end.
Proof.
  unfold myBonds. rewrite myBonds_fold_lookup, lookup_empty, fold_Some_entry_step.
  destruct (filter _ events); [done|].
  by rewrite fold_entry_step.
Qed.

Lemma elem_of_dom_myBonds events (q : N) :
  q ∈ dom (myBonds events) ↔ q ∈ question_id <$> events.
Proof.
  rewrite elem_of_dom, myBonds_lookup, list_elem_of_fmap. split.
  - destruct (filter _ events) as [|e l] eqn:Hf; [by intros [? [=]]|]. intros _.
    assert (He : e ∈ filter (λ e, question_id e = q) events) by (rewrite Hf; left).
    apply list_elem_of_filter in He as [? ?]. eauto.
  - intros (e & -> & He).
    assert (Hin : e ∈ filter (λ e', question_id e' = question_id e) events)
      by by apply list_elem_of_filter.
    destruct (filter _ events); [by apply not_elem_of_nil in Hin|eauto].
Qed.
End Aggregation.

(** ** Aggregation in exact arithmetic *)

#[export] Instance exact_ExactNumber : ExactNumber Qc.
Proof.
  split.
  - apply Qcplus_assoc.
  - apply Qcplus_comm.
  - apply Qcplus_0_l.
  - intros x Hx. apply Qc_eq_bool_correct. cbn in Hx. by destruct (Qc_eq_bool _ _).
Qed.

Section Exact.
Context {num : Type} {JS : JSNumber num} {EX : ExactNumber num}.

Lemma or_zero_Some (v : num) : or_zero (Some v) = v.
Proof. cbn. destruct (truthy v) eqn:Hv; [done|]. symmetry. by apply falsy_zero. Qed.

Lemma add_swap_r (v x y : num) : add (add v x) y = add (add v y) x.
Proof. by rewrite <- !add_assoc, (add_comm x y). Qed.

Lemma bondsByAnswer_step_comm (m : gmap N num) e1 e2 :
  bondsByAnswer_step (bondsByAnswer_step m e1) e2
  = bondsByAnswer_step (bondsByAnswer_step m e2) e1.
Proof.
  unfold bondsByAnswer_step.
  destruct (decide (answer e1 = answer e2)) as [Heq|Hne].
  - rewrite Heq, !lookup_insert_eq, !insert_insert_eq, !or_zero_Some.
    by rewrite add_swap_r.
  - rewrite !lookup_insert_ne by done. by apply insert_insert_ne.
Qed.

Lemma entry_step_comm (entry : QuestionBonds num) e1 e2 :
  entry_step (entry_step entry e1) e2 = entry_step (entry_step entry e2) e1.
Proof.
  unfold entry_step. cbn [total by_answer].
  by rewrite add_swap_r, bondsByAnswer_step_comm.
Qed.

Lemma myBonds_step_comm (m : gmap N (QuestionBonds num)) e1 e2 :
  myBonds_step (myBonds_step m e1) e2 = myBonds_step (myBonds_step m e2) e1.
Proof.
  rewrite !myBonds_step_entry.
  destruct (decide (question_id e1 = question_id e2)) as [Heq|Hne].
  - rewrite Heq, !lookup_insert_eq, !insert_insert_eq.
    f_equal. apply entry_step_comm.
  - rewrite !lookup_insert_ne by done. by apply insert_insert_ne.
Qed.

Lemma sum_by_answer_step (m : gmap N num) e :
  sum_by_answer (bondsByAnswer_step m e) = add (sum_by_answer m) (decimal_bond e).
Proof.
  unfold sum_by_answer, bondsByAnswer_step. fold (decimal_bond e).
  assert (Hcomm : ∀ (m' : gmap N num) (j1 j2 : N) (z1 z2 y : num),
             j1 ≠ j2 → m' !! j1 = Some z1 → m' !! j2 = Some z2 →
             add z1 (add z2 y) = add z2 (add z1 y)).
  { intros _ _ _ z1 z2 y _ _ _. by rewrite !add_assoc, (add_comm z1 z2). }
  destruct (m !! answer e) as [v|] eqn:Hm.
  - rewrite or_zero_Some, <- insert_delete_eq.
    rewrite map_fold_insert_L; [|apply Hcomm|apply lookup_delete_eq].
    rewrite (map_fold_delete_L _ _ (answer e) v m); [|apply Hcomm|done].
    rewrite <- !add_assoc. f_equal. apply add_comm.
  - rewrite map_fold_insert_L; [|apply Hcomm|done].
    cbn [or_zero]. rewrite add_zero_l. apply add_comm.
Qed.

Lemma sum_by_answer_fold events (m : gmap N num) :
  sum_by_answer (fold_left bondsByAnswer_step events m)
  = fold_left add (decimal_bond <$> events) (sum_by_answer m).
Proof.
  revert m. induction events as [|e events IH]; intros m; [done|].
  cbn [fold_left fmap list_fmap]. by rewrite IH, sum_by_answer_step.
Qed.
(** In exact arithmetic the order of the events does not matter at all, and
    the grand total of a question is the sum of its per-answer amounts. *)
Lemma exact_order_independent (events events' : list LogNewAnswer) :
  events ≡ₚ events' →
  bondsByAnswer (num := num) events = bondsByAnswer events'
  ∧ myBonds (num := num) events = myBonds events'.
Proof.
  intros Hperm. split.
  - unfold bondsByAnswer.
    apply fold_left_comm_perm; [apply bondsByAnswer_step_comm|done].
  - unfold myBonds.
    apply fold_left_comm_perm; [apply myBonds_step_comm|done].
Qed.

Lemma exact_total_is_sum (events : list LogNewAnswer) (q : N)
    (entry : QuestionBonds num) :
  myBonds events !! q = Some entry →
  total entry = sum_by_answer (by_answer entry).
Proof.
  rewrite myBonds_lookup.
  destruct (filter _ events) as [|e evs]; [done|].
  intros [= <-]. cbn [total by_answer]. unfold bondsByAnswer.
  rewrite sum_by_answer_fold. unfold sum_by_answer. by rewrite map_fold_empty.
Qed.
End Exact.

(** C5, as stated, fails on the numbers the runtime uses: bonds of 0.1, 0.3
    and 1 token on one answer total 1.4 (0x1.6666666666666p+0) in ledger
    order and 1.4000000000000001 (0x1.6666666666667p+0) in the opposite
    order. *)
Lemma double_totals_depend_on_order :
  rising_events ≡ₚ falling_events
  ∧ bondsByAnswer (num := float) rising_events
    = {[ 1 := 0x1.6666666666666p+0%float ]}
  ∧ bondsByAnswer (num := float) falling_events
    = {[ 1 := 0x1.6666666666667p+0%float ]}
  ∧ bondsByAnswer (num := float) rising_events
    ≠ bondsByAnswer (num := float) falling_events.
Proof.
  split; [|split; [|split]].
  - change falling_events with (rev rising_events). apply Permutation_rev.
  - vm_compute. reflexivity.
  - vm_compute. reflexivity.
  - intros Heq.
    apply (f_equal (λ m : gmap N float,
                      match m !! 1 with
                      | Some f => PrimFloat.eqb f 0x1.6666666666666p+0
                      | None => false
                      end)) in Heq.
    vm_compute in Heq. discriminate Heq.
Qed.

(** C5, amended. For every permutation of the events both aggregations
    give the same set of keys, whatever the numbers. A permutation that
    keeps the events of each answer in their order gives the identical
    per-answer totals; for the accumulation of [getMyBonds], one that keeps
    the events of each answer to each question in their order gives the
    identical per-answer amounts, and one that keeps the events of each
    question in their order the identical result. Only the order among the
    events of one key matters. *)
Theorem aggregation_order_independent {num : Type} {JS : JSNumber num}
    (events events' : list LogNewAnswer) :
  events ≡ₚ events' →
  (dom (bondsByAnswer (num := num) events) = dom (bondsByAnswer (num := num) events')
   ∧ dom (myBonds (num := num) events) = dom (myBonds (num := num) events'))
  ∧ ((∀ k, filter (λ e, answer e = k) events = filter (λ e, answer e = k) events') →
     bondsByAnswer (num := num) events = bondsByAnswer events')
  ∧ ((∀ q a, filter (λ e, answer e = a) (filter (λ e, question_id e = q) events)
             = filter (λ e, answer e = a) (filter (λ e, question_id e = q) events')) →
     ∀ q, by_answer <$> myBonds (num := num) events !! q
          = by_answer <$> myBonds (num := num) events' !! q)
  ∧ ((∀ q, filter (λ e, question_id e = q) events
           = filter (λ e, question_id e = q) events') →
     myBonds (num := num) events = myBonds events').
Proof.
  intros Hperm. split; [split|split; [|split]].
  - apply set_eq. intros k. rewrite !elem_of_dom_bondsByAnswer. by rewrite Hperm.
  - apply set_eq. intros k. rewrite !elem_of_dom_myBonds. by rewrite Hperm.
  - intros Hkeep. apply map_eq. intros k.
    by rewrite !bondsByAnswer_lookup, Hkeep.
  - intros Hkeep q. rewrite !myBonds_lookup.
    assert (Hq : filter (λ e, question_id e = q) events
                 ≡ₚ filter (λ e, question_id e = q) events') by by rewrite Hperm.
    specialize (Hkeep q).
    destruct (filter (λ e, question_id e = q) events) as [|e evs],
      (filter (λ e, question_id e = q) events') as [|e' evs'].
    + done.
    + by apply Permutation_nil_cons in Hq.
    + symmetry in Hq. by apply Permutation_nil_cons in Hq.
    + cbn [fmap option_fmap option_map by_answer]. f_equal.
      apply map_eq. intros a.
      by rewrite !bondsByAnswer_lookup, Hkeep.
  - intros Hkeep. apply map_eq. intros q.
    by rewrite !myBonds_lookup, Hkeep.
Qed.

Lemma aggregation_order_independent_witness :
  (mixed_events ≡ₚ mixed_events_exchanged
   ∧ (∀ k, filter (λ e, answer e = k) mixed_events
           = filter (λ e, answer e = k) mixed_events_exchanged)
   ∧ (∀ q a, filter (λ e, answer e = a) (filter (λ e, question_id e = q) mixed_events)
             = filter (λ e, answer e = a)
                 (filter (λ e, question_id e = q) mixed_events_exchanged))
   ∧ (∀ q, filter (λ e, question_id e = q) mixed_events
           = filter (λ e, question_id e = q) mixed_events_exchanged))
  ∧ bondsByAnswer (num := float) mixed_events = bondsByAnswer mixed_events_exchanged
  ∧ (∀ q, by_answer <$> myBonds (num := float) mixed_events !! q
          = by_answer <$> myBonds (num := float) mixed_events_exchanged !! q)
  ∧ myBonds (num := float) mixed_events = myBonds mixed_events_exchanged.
Proof.
  assert (Hperm : mixed_events ≡ₚ mixed_events_exchanged) by apply perm_swap.
  assert (Hanswers : ∀ k, filter (λ e, answer e = k) mixed_events
                          = filter (λ e, answer e = k) mixed_events_exchanged).
  { intros k. unfold mixed_events, mixed_events_exchanged.
    rewrite !filter_cons, !filter_nil. cbn [answer].
    destruct (decide (1 = k)), (decide (2 = k)); congruence. }
  assert (Hquestions : ∀ q, filter (λ e, question_id e = q) mixed_events
                            = filter (λ e, question_id e = q) mixed_events_exchanged).
  { intros q. unfold mixed_events, mixed_events_exchanged.
    rewrite !filter_cons, !filter_nil. cbn [question_id].
    destruct (decide (7 = q)), (decide (8 = q)); congruence. }
  assert (Hboth : ∀ q a,
            filter (λ e, answer e = a) (filter (λ e, question_id e = q) mixed_events)
            = filter (λ e, answer e = a)
                (filter (λ e, question_id e = q) mixed_events_exchanged)).
  { intros q a. by rewrite Hquestions. }
  split; [done|].
  destruct (aggregation_order_independent (num := float)
              mixed_events mixed_events_exchanged Hperm) as (_ & Hb & Ha & Hm).
  split; [apply Hb, Hanswers|]. split; [apply Ha, Hboth | apply Hm, Hquestions].
Defined.

(** C6, as stated, fails on the numbers the runtime uses: after bonds of
    0.1 and 1 token on answer 1 and 0.3 on answer 2, the grand total is 1.4
    (0x1.6666666666666p+0) while the per-answer amounts 1.1 and 0.3 sum to
    1.4000000000000001, in whichever order they are added. *)
Lemma double_total_differs_from_sum :
  ∃ entry : QuestionBonds float,
    myBonds split_events !! 7 = Some entry
    ∧ total entry = 0x1.6666666666666p+0%float
    ∧ by_answer entry
      = {[ 1 := 0x1.199999999999ap+0%float; 2 := 0x1.3333333333333p-2%float ]}
    ∧ total entry ≠ sum_by_answer (by_answer entry)
    ∧ total entry ≠ (0 + 0x1.199999999999ap+0 + 0x1.3333333333333p-2)%float
    ∧ total entry ≠ (0 + 0x1.3333333333333p-2 + 0x1.199999999999ap+0)%float.
Proof.
  eexists. split; [vm_compute; reflexivity|]. cbn [total by_answer].
  split; [vm_compute; reflexivity|].
  split; [vm_compute; reflexivity|].
  repeat split; intros Heq;
    apply (f_equal (λ f, PrimFloat.eqb f 0x1.6666666666666p+0)) in Heq;
    vm_compute in Heq; discriminate Heq.
Qed.

(** C6, amended. In the result of the accumulation of [getMyBonds], the
    grand total recorded for a question is the sum, taken from 0 in ledger
    order, of the decimal bonds of all the events of the question, and the
    amount of each answer is the accumulation, in ledger order, of the
    decimal bonds of the events of the question with that answer; a
    question has an entry only when it has events. *)
Theorem myBonds_total_is_sum {num : Type} {JS : JSNumber num}
    (events : list LogNewAnswer) (q : N) (entry : QuestionBonds num) :
  myBonds events !! q = Some entry →
  total entry
  = fold_left add (decimal_bond <$> filter (λ e, question_id e = q) events) zero
  ∧ (∀ a, by_answer entry !! a
          = fold_left accumulate
              (decimal_bond
                 <$> filter (λ e, answer e = a)
                       (filter (λ e, question_id e = q) events))
              None)
  ∧ filter (λ e, question_id e = q) events ≠ [].
Proof.
  rewrite myBonds_lookup.
  destruct (filter (λ e, question_id e = q) events) as [|e evs]; [done|].
  intros [= <-]. cbn [total by_answer].
  split; [done|]. split; [|done].
  intros a. apply bondsByAnswer_lookup.
Qed.

Lemma myBonds_total_is_sum_witness :
  myBonds (num := float) split_events !! 7 = Some split_entry
  ∧ total split_entry
    = fold_left add (decimal_bond <$> filter (λ e, question_id e = 7) split_events) zero
  ∧ by_answer split_entry !! 1
    = fold_left accumulate
        (decimal_bond
           <$> filter (λ e, answer e = 1)
                 (filter (λ e, question_id e = 7) split_events))
        None.
Proof.
  assert (Hentry : myBonds (num := float) split_events !! 7 = Some split_entry)
    by (vm_compute; reflexivity).
  split; [exact Hentry|].
  destruct (myBonds_total_is_sum split_events 7 split_entry Hentry) as (Ht & Ha & _).
  split; [exact Ht | exact (Ha 1)].
Defined.

(** ** Raw and decimal bond amounts *)

Section Amounts.
Context {num : Type} {JS : JSNumber num}.

(** C10. The bonds in the method call [claimWinnings] builds are the raw
    ledger amounts of the events, newest first, with no conversion applied;
    the bond of the object [getQuestion] builds, every per-answer amount of
    the accumulation of [getQuestionBondsByAnswer] and every total and
    per-answer amount of the accumulation of [getMyBonds] are built from
    [fromDecimalsNumber (·, 18)] of the raw amounts. *)
Theorem raw_and_decimal_bonds :
  (∀ questionId events,
     claimWinnings_call questionId events
     = methods.claimWinnings questionId (historyHashes events) (addrs events)
         (reverse (bond <$> events)) (answers events))
  ∧ (∀ questionId question fin,
       q_bond (getQuestion_object (num := num) questionId question fin)
       = fromDecimalsNumber (st_bond question) 18)
  ∧ (∀ events k,
       bondsByAnswer (num := num) events !! k
       = fold_left accumulate
           ((λ e, fromDecimalsNumber (bond e) 18)
              <$> filter (λ e, answer e = k) events) None)
  ∧ (∀ events q,
       myBonds (num := num) events !! q
       = match filter (λ e, question_id e = q) events with
         | [] => None
         | evs =>
             Some {| total := fold_left add
                                ((λ e, fromDecimalsNumber (bond e) 18) <$> evs)
                                zero;
                     by_answer := bondsByAnswer evs |}
         end).
Proof.
  split; [done|]. split; [done|]. split.
  - apply bondsByAnswer_lookup.
  - apply myBonds_lookup.
Qed.
End Amounts.

(** ** The end-to-end example *)

(** C4, as stated, has no reading on which it holds. If the bonds 10, 5
    and 3 of the three events are raw ledger amounts, the totals are not 13
    and 5; if they are token amounts, the bonds of the chain are not 3, 5
    and 10. *)
Lemma example_amounts_disagree :
  bondsByAnswer (num := float) (example_events 7 10 11 101 102 103 10 5 3)
  ≠ {[ 1 := 13%float; 2 := 5%float ]}
  ∧ bonds (example_events 7 10 11 101 102 103 (tokens 10) (tokens 5) (tokens 3))
    ≠ [3; 5; 10].
Proof.
  split.
  - intros Heq.
    apply (f_equal (λ m : gmap N float,
                      match m !! 2 with
                      | Some f => PrimFloat.eqb f 5
                      | None => false
                      end)) in Heq.
    vm_compute in Heq. discriminate Heq.
  - intros Heq. vm_compute in Heq. discriminate Heq.
Qed.

Lemma example_events_of_user (Q1 A B h1 h2 h3 b1 b2 b3 : N) :
  A ≠ B →
  filter (λ e, user e = A) (example_events Q1 A B h1 h2 h3 b1 b2 b3)
  = [ {| answer := 1; question_id := Q1; history_hash := h1; user := A; bond := b1 |};
      {| answer := 1; question_id := Q1; history_hash := h3; user := A; bond := b3 |} ].
Proof.
  intros Hne. unfold example_events.
  rewrite filter_cons, decide_True by done.
  rewrite filter_cons, decide_False by (cbn; congruence).
  rewrite filter_cons, decide_True by done.
  by rewrite filter_nil.
Qed.

(** C4, amended. For the three events of question [Q1], whose raw bonds
    are 10, 5 and 3 tokens, and with [A ≠ B]: the accumulation of
    [getQuestionBondsByAnswer] gives the totals [{1: 13, 2: 5}] over all
    the events and [{1: 13}] over the events of user [A], for whom the
    accumulation of [getMyBonds] records a total of 13 with [{1: 13}]; the
    chain has hashes [[h2, h1, nullHash]], addresses [[A, B, A]], answers
    [[1, 2, 1]] and, as bonds, the raw amounts of 3, 5 and 10 tokens. *)
Theorem example_end_to_end (Q1 A B h1 h2 h3 : N) :
  A ≠ B →
  let events :=
    example_events Q1 A B h1 h2 h3 (tokens 10) (tokens 5) (tokens 3) in
  bondsByAnswer (num := float) events = {[ 1 := 13%float; 2 := 5%float ]}
  ∧ bondsByAnswer (num := float) (filter (λ e, user e = A) events)
    = {[ 1 := 13%float ]}
  ∧ myBonds (num := float) (filter (λ e, user e = A) events)
    = {[ Q1 := {| total := 13%float; by_answer := {[ 1 := 13%float ]} |} ]}
  ∧ historyHashes events = [h2; h1; nullHash]
  ∧ addrs events = [A; B; A]
  ∧ bonds events = [tokens 3; tokens 5; tokens 10]
  ∧ answers events = [1; 2; 1].
Proof.
  intros Hne events. unfold events.
  rewrite (example_events_of_user Q1 A B) by done. unfold example_events.
  split; [vm_compute; reflexivity|].
  split; [vm_compute; reflexivity|].
  split; [|repeat split; vm_compute; reflexivity].
  unfold myBonds. cbn [fold_left]. rewrite !myBonds_step_entry.
  cbn [question_id]. rewrite lookup_empty, lookup_insert_eq, insert_insert_eq.
  rewrite insert_empty. f_equal; vm_compute; reflexivity.
Qed.

Lemma example_end_to_end_witness :
  (10 : N) ≠ 11
  ∧ bondsByAnswer (num := float) sample_events = {[ 1 := 13%float; 2 := 5%float ]}
  ∧ bondsByAnswer (num := float) (filter (λ e, user e = 10) sample_events)
    = {[ 1 := 13%float ]}
  ∧ myBonds (num := float) (filter (λ e, user e = 10) sample_events)
    = {[ 7 := {| total := 13%float; by_answer := {[ 1 := 13%float ]} |} ]}
  ∧ historyHashes sample_events = [102; 101; nullHash]
  ∧ addrs sample_events = [10; 11; 10]
  ∧ bonds sample_events = [tokens 3; tokens 5; tokens 10]
  ∧ answers sample_events = [1; 2; 1].
Proof.
  split; [discriminate|].
  apply (example_end_to_end 7 10 11 101 102 103). discriminate.
Defined.

(** * Further properties of the two classes *)

(** ** The chain as the ledger grows *)

Lemma historyHashes_snoc (events : list LogNewAnswer) (e : LogNewAnswer) :
  historyHashes (events ++ [e]) = reverse (history_hash <$> events) ++ [nullHash].
Proof.
  rewrite historyHashes_take, length_app. cbn [length].
  replace (length events + 1 - 1)%nat with (length events) by lia.
  by rewrite take_app_length.
Qed.

(** X1. A new answer [e] on top of a log whose newest event is [e0]
    prepends the hash of [e0], not its own, to the hashes, and its own
    user, bond and answer to the three other arrays; the first answer of a
    question gives the hashes [[nullHash]]. *)
Theorem chain_grows (events : list LogNewAnswer) (e0 e : LogNewAnswer) :
  historyHashes ((events ++ [e0]) ++ [e])
  = history_hash e0 :: historyHashes (events ++ [e0])
  ∧ historyHashes [e] = [nullHash]
  ∧ addrs ((events ++ [e0]) ++ [e]) = user e :: addrs (events ++ [e0])
  ∧ bonds ((events ++ [e0]) ++ [e]) = bond e :: bonds (events ++ [e0])
  ∧ answers ((events ++ [e0]) ++ [e]) = answer e :: answers (events ++ [e0]).
Proof.
  split; [|split; [done|]].
  - rewrite !historyHashes_snoc, fmap_app, reverse_app. done.
  - unfold addrs, bonds, answers.
    by rewrite !(fmap_app _ (events ++ [e0])), !reverse_app.
Qed.

(** X2. The event at ledger position [i], when it is not the newest, has
    its user, bond and answer at position [n-1-i] of their arrays and its
    history hash one position earlier, at [n-2-i], next to the data of the
    event that followed it. *)
Theorem chain_alignment (events : list LogNewAnswer) (i : nat) (e : LogNewAnswer) :
  events !! i = Some e →
  (S i < length events)%nat →
  let n := length events in
  historyHashes events !! (n - 2 - i)%nat = Some (history_hash e)
  ∧ addrs events !! (n - 1 - i)%nat = Some (user e)
  ∧ bonds events !! (n - 1 - i)%nat = Some (bond e)
  ∧ answers events !! (n - 1 - i)%nat = Some (answer e).
Proof.
  intros He Hi n. subst n.
  assert (Hback : (length events - S (length events - 1 - i))%nat = i) by lia.
  unfold addrs, bonds, answers.
  rewrite !lookup_reverse_fmap by lia. rewrite Hback, He.
  split; [|done].
  rewrite historyHashes_take.
  assert (Hlen : length (take (length events - 1) events) = (length events - 1)%nat)
    by (rewrite length_take; lia).
  rewrite lookup_app_l by (rewrite length_reverse, length_fmap; lia).
  rewrite lookup_reverse_fmap by lia.
  rewrite Hlen, lookup_take_lt by lia.
  replace (length events - 1 - S (length events - 2 - i))%nat with i by lia.
  by rewrite He.
Qed.

Lemma chain_alignment_witness :
  (sample_events !! 1%nat
   = Some {| answer := 2; question_id := 7; history_hash := 102; user := 11;
             bond := tokens 5 |}
   ∧ (2 < length sample_events)%nat)
  ∧ historyHashes sample_events !! 0%nat = Some 102
  ∧ addrs sample_events !! 1%nat = Some 11
  ∧ bonds sample_events !! 1%nat = Some (tokens 5)
  ∧ answers sample_events !! 1%nat = Some 2.
Proof.
  split; [split; [reflexivity | cbn; lia]|].
  apply (chain_alignment sample_events 1
           {| answer := 2; question_id := 7; history_hash := 102; user := 11;
              bond := tokens 5 |});
    [reflexivity | cbn; lia].
Defined.

(** ** Sending transactions *)

(** X3. In its sending mode [__sendTx] resolves or rejects exactly as the
    gateway does, and the one transaction it sends is sent from the address
    [getUserAddress] returns; when the accounts of the node cannot be read,
    both throw that rejection and nothing is sent. *)
Theorem sendTx_sender (w : World) (f : methods.t) :
  match run w getUserAddress with
  | (Returned userAddress, _) =>
      (run w (__sendTx f false)).1 = send_result w f
      ∧ omap sent_tx (run w (__sendTx f false)).2 = [f]
      ∧ omap sender (run w (__sendTx f false)).2 = [userAddress]
  | (Thrown e, _) =>
      (run w (__sendTx f false)).1 = Thrown e
      ∧ omap sent_tx (run w (__sendTx f false)).2 = []
  end.
Proof.
  unfold_methods.
  destruct (this_acc w) as [a|]; [done|].
  by destruct (node_accounts w) as [accounts|e].
Qed.

(** X4. In its calling mode [__sendTx] sends nothing and does not read the
    accounts of the node: its only request is the call of the method, from
    the account when there is one, and it resolves or rejects as that call
    does; in its sending mode it calls nothing. *)
Theorem sendTx_modes (w : World) (f : methods.t) :
  run w (__sendTx f true) = (call_result w f, [call f (this_acc w)])
  ∧ omap called (run w (__sendTx f false)).2 = [].
Proof.
  unfold_methods.
  destruct (this_acc w) as [a|]; [done|].
  by destruct (node_accounts w) as [accounts|e].
Qed.

Section Reads.
Context {num : Type} {JS : JSNumber num}.

(** X5. [getQuestion] and [getQuestionBondsByAnswer] reject with the
    [TypeError] of [this.getContract()] for every question and user,
    before any request reaches the ledger. *)
Theorem contract_reads_reject (w : World) (questionId : N) (user_ : option N) :
  run w (getQuestion (num := num) questionId)
  = (Thrown "TypeError: this.getContract is not a function", [])
  ∧ run w (getQuestionBondsByAnswer (num := num) questionId user_)
    = (Thrown "TypeError: this.getContract is not a function", []).
Proof. done. Qed.
End Reads.

(** ** More on the aggregations *)

Section Keys.
Context {num : Type} {JS : JSNumber num}.

(** X7. The accumulation of [getQuestionBondsByAnswer] returns an object
    whose keys are exactly the answers of the events it is given, and the
    accumulation of [getMyBonds] one whose keys are exactly their
    questions: an answer nobody bonded on has no key, not a 0 entry, and no
    events give the empty object. *)
Theorem accumulation_keys (events : list LogNewAnswer) :
  (∀ k, k ∈ dom (bondsByAnswer (num := num) events)
        ↔ ∃ e, e ∈ events ∧ answer e = k)
  ∧ (∀ q, q ∈ dom (myBonds (num := num) events)
          ↔ ∃ e, e ∈ events ∧ question_id e = q)
  ∧ bondsByAnswer (num := num) [] = ∅
  ∧ myBonds (num := num) [] = ∅.
Proof.
  split; [|split; [|done]].
  - intros k. rewrite elem_of_dom_bondsByAnswer, list_elem_of_fmap.
    split; [intros (e & -> & He); eauto | intros (e & He & <-); eauto].
  - intros q. rewrite elem_of_dom_myBonds, list_elem_of_fmap.
    split; [intros (e & -> & He); eauto | intros (e & He & <-); eauto].
Qed.

(** X8. What the accumulation of [getMyBonds] records per answer for a
    question is what the accumulation of [getQuestionBondsByAnswer] gives
    on the events of that question; no entry is without answers, and a
    question has no entry exactly when none of the events is about it. *)
Theorem myBonds_agrees (events : list LogNewAnswer) (questionId : N) :
  match myBonds (num := num) events !! questionId with
  | Some entry =>
      by_answer entry
      = bondsByAnswer (filter (λ e, question_id e = questionId) events)
      ∧ by_answer entry ≠ ∅
  | None => ∀ e, e ∈ events → question_id e ≠ questionId
  end.
Proof.
  rewrite myBonds_lookup.
  destruct (filter (λ e, question_id e = questionId) events) as [|e evs] eqn:Hf.
  - intros e He Hq.
    assert (Hin : e ∈ filter (λ e, question_id e = questionId) events)
      by by apply list_elem_of_filter.
    rewrite Hf in Hin. by apply not_elem_of_nil in Hin.
  - split; [done|]. cbn [by_answer]. intros Hempty.
    assert (Hin : answer e ∈ dom (bondsByAnswer (num := num) (e :: evs))).
    { apply elem_of_dom_bondsByAnswer. rewrite fmap_cons. left. }
    rewrite Hempty, dom_empty_L in Hin. by apply not_elem_of_empty in Hin.
Qed.

(** X9. An event on another answer, wherever it enters the log, leaves the
    amount recorded for an answer untouched: the amount of a key depends
    only on the events of that key and their order, whatever the numbers. *)
Theorem bondsByAnswer_other_answer (before after : list LogNewAnswer)
    (e : LogNewAnswer) (k : N) :
  answer e ≠ k →
  bondsByAnswer (num := num) (before ++ e :: after) !! k
  = bondsByAnswer (before ++ after) !! k.
Proof.
  intros Hne. rewrite !bondsByAnswer_lookup, !filter_app, filter_cons.
  by rewrite decide_False by done.
Qed.
End Keys.

Lemma bondsByAnswer_other_answer_witness :
  (2 : N) ≠ 1
  ∧ bondsByAnswer (num := float)
      ([ {| answer := 1; question_id := 7; history_hash := 101; user := 10;
            bond := tenths 1 |} ]
       ++ {| answer := 2; question_id := 7; history_hash := 102; user := 10;
             bond := tenths 3 |}
          :: [ {| answer := 1; question_id := 7; history_hash := 103; user := 10;
                  bond := tenths 10 |} ]) !! 1
    = bondsByAnswer
        ([ {| answer := 1; question_id := 7; history_hash := 101; user := 10;
              bond := tenths 1 |} ]
         ++ [ {| answer := 1; question_id := 7; history_hash := 103; user := 10;
                 bond := tenths 10 |} ]) !! 1.
Proof.
  split; [discriminate|].
  apply (bondsByAnswer_other_answer (num := float)). discriminate.
Defined.

(** ** [__metamaskCall] *)

Lemma fold_on_emission (emissions : list emission) (s : metamask_state) :
  promised (fold_left on_emission emissions s)
  = settle (promised s)
      match List.find settles emissions with
      | Some em => settlement em
      | None => pending
      end
  ∧ callback_calls (fold_left on_emission emissions s)
    = callback_calls s ++ omap confirmation_number emissions.
Proof.
  revert s. induction emissions as [|em emissions IH]; intros s.
  - cbn. split; [by destruct (promised s)|by rewrite app_nil_r].
  - cbn [fold_left List.find omap list_omap]. destruct (IH (on_emission s em)) as [-> ->].
    destruct em as [n receipt|err]; cbn.
    + rewrite <- app_assoc. split; [|done].
      destruct (0 <? n); [|done]. by destruct (promised s).
    + split; [|done]. by destruct (promised s).
Qed.

(** X11. The promise of [__metamaskCall] takes the outcome of the first
    emission that is an error or a confirmation numbered above 0, resolving
    with that confirmation's receipt or rejecting with that error, and
    stays pending when there is none, so confirmation 0 never resolves it;
    [callback] is called with the number of every confirmation, in order,
    also after the promise is settled. *)
Theorem metamaskCall_settles (emissions : list emission) :
  promised (__metamaskCall emissions)
  = match List.find settles emissions with
    | Some em => settlement em
    | None => pending
    end
  ∧ callback_calls (__metamaskCall emissions)
    = omap confirmation_number emissions.
Proof.
  unfold __metamaskCall.
  destruct (fold_on_emission emissions {| promised := pending; callback_calls := [] |})
    as [-> ->].
  done.
Qed.

(** ** Construction, deployment and the guards of [IContract] *)

Ltac unfold_instance_methods :=
  unfold IContract.xrun, IContract.deploy, IContract.__deploy, IContract.__init__,
    IContract.__assert, IContract.getAddress, IContract.onlyOwner,
    IContract.whenNotPaused, IContract.owner, IContract.isPaused,
    IContract.set_contractAddress, IContract.get_this, IContract.throw,
    IContract.xawait, IContract.xtell, IContract.lift,
    mbind, IContract.IM_bind, mret, IContract.IM_ret.

(** X12. Constructing a [RealitioERC20Contract] throws "No ABI Interface
    provided" exactly when [params] carries an [abi] property of its own
    that is falsy, whether or not there is a web3, and throws "Please
    provide a valid web3 provider" exactly when it does not and web3 is
    missing. In every other case it returns the instance that keeps web3,
    the account and the addresses as given, with the ABI [realitio] unless
    [params] brings its own. *)
Theorem RealitioERC20Contract_constructor_spec (params : IContract.realitio_params) :
  IContract.RealitioERC20Contract_constructor params
  = match IContract.r_abi params, IContract.r_web3 params with
    | Some None, _ => Thrown "No ABI Interface provided"
    | _, None => Thrown "Please provide a valid web3 provider"
    | own, Some web3_ =>
        Returned
          {| IContract.web3 := web3_;
             IContract.acc := IContract.r_acc params;
             IContract.abi := match own with
                              | Some (Some abi_) => abi_
                              | _ => IContract.realitio
                              end;
             IContract.contractAddress := IContract.r_contractAddress params;
             IContract.tokenAddress := IContract.r_tokenAddress params |}
    end
  ∧ (IContract.RealitioERC20Contract_constructor params
     = Thrown "No ABI Interface provided"
     ↔ IContract.r_abi params = Some None)
  ∧ (IContract.RealitioERC20Contract_constructor params
     = Thrown "Please provide a valid web3 provider"
     ↔ IContract.r_abi params ≠ Some None ∧ IContract.r_web3 params = None).
Proof.
  unfold IContract.RealitioERC20Contract_constructor, IContract.constructor.
  destruct params as [[web3_|] address [[own|]|] account token]; cbn.
  all: repeat split; try done; try discriminate.
  all: try (intros [? ?]; done).
Qed.

(** X13. [__init__] leaves the instance as it is. With an address it binds
    the contract to the ABI and the address and returns; without one it
    throws "Please add a Contract Address" before any request, so the
    "Contract is not deployed" error of [__assert] never comes out of
    [__init__]. *)
Theorem init_spec (this : IContract.t) (w : IContract.XWorld) :
  IContract.xrun this w IContract.__init__
  = match IContract.contractAddress this with
    | Some a =>
        (Returned (), this, [IContract.contract_use (IContract.abi this) a])
    | None => (Thrown "Please add a Contract Address", this, [])
    end
  ∧ (IContract.xrun this w IContract.__init__).1.1
    ≠ Thrown "Contract is not deployed, first deploy it and provide a contract address".
Proof.
  unfold_instance_methods. cbn.
  destruct (IContract.contractAddress this) eqn:Haddr; cbn; rewrite ?Haddr;
    (split; [done|cbn; discriminate]).
Qed.

(** X14. [deploy] always deploys with no constructor arguments, from the
    account of the instance. When the deployment is rejected the instance is
    untouched. When it resolves, the address of the receipt replaces the
    address of the instance, whatever it was: with an address in the
    receipt the contract is bound to it and the receipt returned; without
    one the instance is left with no address and "Contract is not deployed"
    is thrown. *)
Theorem deploy_spec (this : IContract.t) (w : IContract.XWorld) :
  let request := IContract.contract_deploy (IContract.acc this) (IContract.abi this) [] in
  let moved address :=
    {| IContract.web3 := IContract.web3 this; IContract.acc := IContract.acc this;
       IContract.abi := IContract.abi this; IContract.contractAddress := address;
       IContract.tokenAddress := IContract.tokenAddress this |} in
  IContract.xrun this w IContract.deploy
  = match IContract.deploy_result w with
    | Thrown e => (Thrown e, this, [request])
    | Returned res =>
        match IContract.receipt_contractAddress res with
        | Some a =>
            (Returned res, moved (Some a),
             [request; IContract.contract_use (IContract.abi this) a])
        | None =>
            (Thrown "Contract is not deployed, first deploy it and provide a contract address",
             moved None, [request])
        end
    end.
Proof.
  unfold_instance_methods. cbn.
  destruct (IContract.deploy_result w) as [res|e]; [|done].
  by destruct (IContract.receipt_contractAddress res).
Qed.

(** X15. After a deployment that resolved, [__init__] succeeds exactly when
    the receipt carried an address, and [getAddress] then returns that
    address; an instance that had an address and is redeployed with a
    receipt lacking one can no longer be initialised. *)
Theorem init_after_deploy (this : IContract.t) (w : IContract.XWorld)
    (res : IContract.deploy_receipt) :
  IContract.deploy_result w = Returned res →
  let this' := (IContract.xrun this w IContract.deploy).1.2 in
  (IContract.xrun this' w IContract.getAddress).1.1
  = Returned (IContract.receipt_contractAddress res)
  ∧ ((IContract.xrun this' w IContract.__init__).1.1 = Returned ()
     ↔ is_Some (IContract.receipt_contractAddress res))
  ∧ (IContract.receipt_contractAddress res = None →
     (IContract.xrun this' w IContract.__init__).1.1
     = Thrown "Please add a Contract Address").
Proof.
  intros Hres. unfold_instance_methods. cbn. rewrite Hres.
  destruct (IContract.receipt_contractAddress res) as [a|]; cbn.
  - split; [done|]. split; [|done]. split; [eauto|done].
  - split; [done|]. split; [|done]. split; [done|]. by intros [? ?].
Qed.

Lemma init_after_deploy_witness :
  IContract.deploy_result (sample_xworld 10 false None)
  = Returned {| IContract.receipt_contractAddress := None;
                IContract.receipt_transactionHash := 77 |}
  ∧ (IContract.xrun
       (IContract.xrun (sample_instance (Some 500) (Some 10))
          (sample_xworld 10 false None) IContract.deploy).1.2
       (sample_xworld 10 false None) IContract.__init__).1.1
    = Thrown "Please add a Contract Address".
Proof.
  split; [reflexivity|].
  apply (init_after_deploy (sample_instance (Some 500) (Some 10))
           (sample_xworld 10 false None)
           {| IContract.receipt_contractAddress := None;
              IContract.receipt_transactionHash := 77 |});
    reflexivity.
Defined.

(** X16. Given the owner, [onlyOwner] returns exactly when
    [getUserAddress] returns the owner's address, and throws "Only admin
    can perform this operation" when it returns anything else, [undefined]
    included (no account and no account on the node); it never changes the
    instance. *)
Theorem onlyOwner_spec (this : IContract.t) (w : IContract.XWorld)
    (adminAddress : N) :
  IContract.owner_result w = Returned adminAddress →
  let userAddress := (run (IContract.world_of this w) getUserAddress).1 in
  ((IContract.xrun this w IContract.onlyOwner).1.1 = Returned ()
   ↔ userAddress = Returned (Some adminAddress))
  ∧ (∀ u, userAddress = Returned u → u ≠ Some adminAddress →
       (IContract.xrun this w IContract.onlyOwner).1.1
       = Thrown "Only admin can perform this operation")
  ∧ (IContract.acc this = None →
     node_accounts (IContract.ledger w) = Returned [] →
     (IContract.xrun this w IContract.onlyOwner).1.1
     = Thrown "Only admin can perform this operation")
  ∧ (IContract.xrun this w IContract.onlyOwner).1.2 = this.
Proof.
  intros Ho. unfold_instance_methods. unfold_methods. rewrite Ho. cbn.
  destruct (IContract.acc this) as [a|]; cbn;
    [|destruct (node_accounts (IContract.ledger w)) as [accounts|e]; cbn].
  all: try case_bool_decide; cbn.
  all: repeat split; intros; simplify_eq/=; try done.
  by f_equal.
Qed.

Lemma onlyOwner_spec_witness :
  IContract.owner_result (sample_xworld 10 false None) = Returned 10
  ∧ ((IContract.xrun (sample_instance (Some 500) (Some 10))
        (sample_xworld 10 false None) IContract.onlyOwner).1.1 = Returned ()
     ↔ (run (IContract.world_of (sample_instance (Some 500) (Some 10))
               (sample_xworld 10 false None)) getUserAddress).1
       = Returned (Some 10)).
Proof.
  split; [reflexivity|].
  apply (onlyOwner_spec (sample_instance (Some 500) (Some 10))
           (sample_xworld 10 false None) 10).
  reflexivity.
Defined.

(** X17. [whenNotPaused] returns exactly when the contract reports that it
    is not paused and throws "Contract is paused" when it reports that it
    is; both guards only read: neither changes the instance nor sends a
    transaction. *)
Theorem guards_only_read (this : IContract.t) (w : IContract.XWorld) :
  ((IContract.xrun this w IContract.whenNotPaused).1.1 = Returned ()
   ↔ IContract.paused_result w = Returned false)
  ∧ (IContract.paused_result w = Returned true →
     (IContract.xrun this w IContract.whenNotPaused).1.1
     = Thrown "Contract is paused")
  ∧ IContract.xrun this w IContract.whenNotPaused
    = ((IContract.xrun this w IContract.whenNotPaused).1.1, this,
       [IContract.paused_call])
  ∧ (IContract.xrun this w IContract.onlyOwner).1.2 = this
  ∧ (∀ r, r ∈ (IContract.xrun this w IContract.onlyOwner).2 →
       r = IContract.owner_call ∨ r = IContract.base getAccounts).
Proof.
  unfold_instance_methods. unfold_methods. cbn.
  destruct (IContract.paused_result w) as [[]|e],
    (IContract.owner_result w) as [adminAddress|e']; cbn.
  all: destruct (IContract.acc this) as [a|]; cbn.
  all: try destruct (node_accounts (IContract.ledger w)) as [accounts|e'']; cbn.
  all: repeat case_bool_decide; cbn.
  all: repeat split; try done.
  all: intros r Hr;
    repeat (apply elem_of_cons in Hr as [->|Hr]; [by auto|]);
    by apply elem_of_nil in Hr.
Qed.
